(** * The item registry and the API-key guard of the FastAPI template

    A shallow embedding of [app/api/routes.py] (the in-memory item
    registry behind the five REST handlers) and of [app/core/auth.py]
    (the bearer-token guard), followed by the properties of the
    specification, each stated over these definitions.

    Conventions of the embedding:
    - a Python [int] is a [Z]; a [str] is a [string]; a [float] is a
      primitive binary64 [float];
    - the module-level list [items_db] is threaded explicitly: a handler
      takes the list it finds and returns the list it leaves, paired with
      what it returns or raises;
    - a raised [HTTPException] is the [Raise] case of [result];
    - [logger.info] calls write to no state that a handler reads and are
      left out. *)

From Stdlib Require Import ZArith Lia Sorted.
From Stdlib Require Import Floats.PrimFloat.
From stdpp Require Import base list strings pretty.

Local Open Scope Z_scope.

(** ** Responses *)

Module Http.

Record HTTPException := mkHTTPException {
  status_code : Z;
  detail : string;
  headers : list (string * string)
}.

(** What a handler produces: its return value, or the exception it
    raises. *)
Inductive result (A : Type) : Type :=
| Ok (a : A)
| Raise (e : HTTPException).

Arguments Ok {A} a.
Arguments Raise {A} e.

(** [HTTPException(status_code=404, detail="Item not found")] *)
Definition NotFound : HTTPException :=
  mkHTTPException 404 "Item not found" [].

(** [APIKeyError()], see [app/core/auth.py]. *)
Definition APIKeyError : HTTPException :=
  mkHTTPException 401 "Invalid or missing API key"
    [("WWW-Authenticate", "Bearer")].

Definition is_ok {A} (r : result A) : bool :=
  match r with Ok _ => true | Raise _ => false end.

End Http.
Export Http.

(** ** The authorization guard, [app/core/auth.py] *)

Module Auth.

(** The two fields of [Settings] that the guard reads. *)
Record Settings := mkSettings {
  API_KEY : option string;
  ENABLE_API_KEY_AUTH : bool
}.

(** [HTTPAuthorizationCredentials]: the scheme and the token of an
    [Authorization] header. *)
Record HTTPAuthorizationCredentials := mkCredentials {
  scheme : string;
  credentials : string
}.

(** Python truth value of an [Optional[str]]: [None] and the empty
    string are false. *)
Definition truthy (s : option string) : bool :=
  match s with
  | None => false
  | Some s => negb (String.eqb s "")
  end.

(** [get_api_key].  [HTTPBearer(auto_error=False)] hands over [None]
    when the header is absent; a credentials object is always true. *)
Definition get_api_key (settings : Settings)
    (creds : option HTTPAuthorizationCredentials) : result string :=
  if negb (ENABLE_API_KEY_AUTH settings) || negb (truthy (API_KEY settings))
  then Ok "bypass"
  else
    match creds with
    | None => Raise APIKeyError
    | Some c =>
        if negb (bool_decide (Some (credentials c) = API_KEY settings))
        then Raise APIKeyError
        else Ok (credentials c)
    end.

Definition require_api_key (settings : Settings)
    (creds : option HTTPAuthorizationCredentials) : result string :=
  get_api_key settings creds.

(** The token that a request presents, if any. *)
Definition presented (creds : option HTTPAuthorizationCredentials)
    : option string :=
  credentials <$> creds.

(** Authentication is switched off, or no secret is set: the key is
    absent or the empty string. *)
Definition guard_off (settings : Settings) : Prop :=
  ENABLE_API_KEY_AUTH settings = false ∨
  API_KEY settings = None ∨ API_KEY settings = Some "".

End Auth.

(** ** The item registry, [app/api/routes.py] *)

Module Registry.

Record ItemCreate := mkItemCreate {
  ic_name : string;
  ic_description : string;
  ic_price : float
}.

Record Item := mkItem {
  id : Z;
  name : string;
  description : string;
  price : float
}.

(** [Item(id=i, **fields.dict())] *)
Definition Item_of (i : Z) (fields : ItemCreate) : Item :=
  mkItem i (ic_name fields) (ic_description fields) (ic_price fields).

(** [get_items]: the list itself. *)
Definition get_items (items_db : list Item) : list Item := items_db.

(** [get_item]: the first item of the scan whose id matches. *)
Fixpoint get_item (items_db : list Item) (item_id : Z) : result Item :=
  match items_db with
  | [] => Raise NotFound
  | item :: rest =>
      if id item =? item_id then Ok item else get_item rest item_id
  end.

(** [create_item]: the id is the length of the list plus one. *)
Definition create_item (items_db : list Item) (item : ItemCreate)
    : list Item * Item :=
  let new_id := Z.of_nat (length items_db) + 1 in
  let new_item := Item_of new_id item in
  (items_db ++ [new_item], new_item).

(** The loop of [update_item]: [rest] is what [enumerate] has still to
    yield and [i] the index of its head; [items_db] is the whole list,
    which the assignment [items_db[i] = updated_item] writes to. *)
Fixpoint update_loop (items_db : list Item) (item_id : Z)
    (item_update : ItemCreate) (rest : list Item) (i : nat)
    : list Item * result Item :=
  match rest with
  | [] => (items_db, Raise NotFound)
  | item :: rest' =>
      if id item =? item_id then
        let updated_item := Item_of item_id item_update in
        (<[i := updated_item]> items_db, Ok updated_item)
      else update_loop items_db item_id item_update rest' (S i)
  end.

Definition update_item (items_db : list Item) (item_id : Z)
    (item_update : ItemCreate) : list Item * result Item :=
  update_loop items_db item_id item_update items_db 0.

(** The message of a successful delete,
    [f"Item {item_id} deleted successfully"]. *)
Definition deleted_message (item_id : Z) : string :=
  "Item " +:+ pretty item_id +:+ " deleted successfully".

(** The loop of [delete_item], with [items_db.pop(i)] at the match. *)
Fixpoint delete_loop (items_db : list Item) (item_id : Z)
    (rest : list Item) (i : nat) : list Item * result string :=
  match rest with
  | [] => (items_db, Raise NotFound)
  | item :: rest' =>
      if id item =? item_id then
        (delete i items_db, Ok (deleted_message item_id))
      else delete_loop items_db item_id rest' (S i)
  end.

Definition delete_item (items_db : list Item) (item_id : Z)
    : list Item * result string :=
  delete_loop items_db item_id items_db 0.

End Registry.

(** ** Sequences of requests *)

Module Trace.
Import Registry.

(** The three handlers that write to [items_db]. *)
Inductive request :=
| Create (fields : ItemCreate)
| Update (item_id : Z) (fields : ItemCreate)
| Delete (item_id : Z).

Inductive response :=
| Created (item : Item)
| Updated (r : result Item)
| Deleted (r : result string).

Definition handle (items_db : list Item) (rq : request)
    : list Item * response :=
  match rq with
  | Create fields =>
      let '(db, item) := create_item items_db fields in (db, Created item)
  | Update item_id fields =>
      let '(db, r) := update_item items_db item_id fields in (db, Updated r)
  | Delete item_id =>
      let '(db, r) := delete_item items_db item_id in (db, Deleted r)
  end.

(** The requests are served one after the other on the same list. *)
Fixpoint serve (items_db : list Item) (rqs : list request)
    : list Item * list response :=
  match rqs with
  | [] => (items_db, [])
  | rq :: rqs' =>
      let '(db, r) := handle items_db rq in
      let '(db', rs) := serve db rqs' in
      (db', r :: rs)
  end.

(** The process starts with [items_db = []]. *)
Definition reachable (items_db : list Item) : Prop :=
  ∃ rqs, (serve [] rqs).1 = items_db.

Definition is_create (rq : request) : bool :=
  match rq with Create _ => true | _ => false end.

Definition is_delete (rq : request) : bool :=
  match rq with Delete _ => true | _ => false end.

Definition no_deletes (rqs : list request) : bool :=
  forallb (λ rq, negb (is_delete rq)) rqs.

(** How many items a sequence of requests creates. *)
Definition creations (rqs : list request) : nat :=
  length (filter (λ rq, is_create rq = true) rqs).

(** The ids that the [create_item] calls of a run returned, in order. *)
Fixpoint created_ids (rs : list response) : list Z :=
  match rs with
  | [] => []
  | Created item :: rs' => id item :: created_ids rs'
  | _ :: rs' => created_ids rs'
  end.

(** Some item of the list carries the id. *)
Definition has_id (items_db : list Item) (item_id : Z) : Prop :=
  ∃ item, item ∈ items_db ∧ id item = item_id.

(** No item of the list carries the id. *)
Definition lacks_id (items_db : list Item) (item_id : Z) : Prop :=
  Forall (λ item, id item ≠ item_id) items_db.

End Trace.

(** ** Sample data *)

Module Samples.
Import Registry Trace Auth.

(** The price is the binary64 value nearest to 9.99. *)
Definition widget : ItemCreate :=
  mkItemCreate "Widget" "A widget" 0x1.3fae147ae147bp+3%float.
Definition widget2 : ItemCreate := mkItemCreate "Widget2" "Updated" 12.5%float.
Definition gadget : ItemCreate := mkItemCreate "Gadget" "A gadget" 3%float.

(** Two creations, the first item deleted, one more creation. *)
Definition delete_then_create : list request :=
  [Create widget; Create gadget; Delete 1; Create widget2].

(** The list after the first three requests of [delete_then_create]. *)
Definition one_left : list Item := [Item_of 2 gadget].

(** The list that [delete_then_create] leaves. *)
Definition twice_two : list Item :=
  [Item_of 2 gadget; Item_of 2 widget2].

(** One creation, that item deleted, one more creation. *)
Definition create_again : list request :=
  [Create widget; Delete 1; Create gadget].

(** Creations and an update, no delete. *)
Definition no_delete_run : list request :=
  [Create widget; Update 1 widget2; Create gadget].

Definition guarded : Settings := mkSettings (Some "s3cret") true.

Definition bearer (token : string) : option HTTPAuthorizationCredentials :=
  Some (mkCredentials "Bearer" token).

End Samples.

(** ** The settings, [app/core/config.py] *)

Module Config.

(** The fields of [Settings]; the environment may set any of them. *)
Record Settings := mkSettings {
  APP_NAME : string;
  APP_VERSION : string;
  DEBUG : bool;
  API_V1_STR : string;
  AWS_REGION : string;
  AWS_ACCOUNT_ID : option string;
  ECR_REPOSITORY_URI : option string;
  ECS_CLUSTER_NAME : option string;
  ECS_SERVICE_NAME : option string;
  ENVIRONMENT : string;
  API_KEY : option string;
  ENABLE_API_KEY_AUTH : bool;
  ENABLE_API_KEY_DOCS : bool
}.

(** [Settings()] when neither the environment nor [.env] sets a field. *)
Definition defaults : Settings :=
  {| APP_NAME := "AWS ECS API Template";
     APP_VERSION := "1.0.0";
     DEBUG := false;
     API_V1_STR := "/api/v1";
     AWS_REGION := "us-east-1";
     AWS_ACCOUNT_ID := None;
     ECR_REPOSITORY_URI := None;
     ECS_CLUSTER_NAME := None;
     ECS_SERVICE_NAME := None;
     ENVIRONMENT := "dev";
     API_KEY := None;
     ENABLE_API_KEY_AUTH := true;
     ENABLE_API_KEY_DOCS := false |}.

(** The two fields that [app/core/auth.py] reads. *)
Definition security (settings : Settings) : Auth.Settings :=
  Auth.mkSettings (API_KEY settings) (ENABLE_API_KEY_AUTH settings).

End Config.

(** ** The routes, [app/api/routes.py] and [app/main.py] *)

Module Api.
Import Registry.

(** What a handler returns: a list of items, one item, or a dictionary
    of strings. *)
Inductive body :=
| Json_items (items : list Item)
| Json_item (item : Item)
| Json_dict (d : list (string * string)).

(** The handlers of the router and [health_check] of the application. *)
Inductive request :=
| Root
| GetItems
| GetItem (item_id : Z)
| CreateItem (item : ItemCreate)
| UpdateItem (item_id : Z) (item_update : ItemCreate)
| DeleteItem (item_id : Z)
| Health.

(** [root] *)
Definition root : list (string * string) :=
  [("message", "Welcome to AWS ECS API Template")].

(** [health_check] *)
Definition health_check (settings : Config.Settings)
    : list (string * string) :=
  [("status", "healthy"); ("service", Config.APP_NAME settings)].

(** The handlers that declare [_: str = Depends(require_api_key)]. *)
Definition needs_key (rq : request) : bool :=
  match rq with
  | Root | Health => false
  | _ => true
  end.


Definition result_map {A B} (f : A → B) (r : result A) : result B :=
  match r with
  | Ok a => Ok (f a)
  | Raise e => Raise e
  end.

(** The body of each handler, once its dependencies are resolved. *)
Definition endpoint (settings : Config.Settings) (items_db : list Item)
    (rq : request) : list Item * result body :=
  match rq with
  | Root => (items_db, Ok (Json_dict root))
  | GetItems => (items_db, Ok (Json_items (get_items items_db)))
  | GetItem item_id =>
      (items_db, result_map Json_item (get_item items_db item_id))
  | CreateItem item =>
      let '(db, new_item) := create_item items_db item in
      (db, Ok (Json_item new_item))
  | UpdateItem item_id item_update =>
      let '(db, r) := update_item items_db item_id item_update in
      (db, result_map Json_item r)
  | DeleteItem item_id =>
      let '(db, r) := delete_item items_db item_id in
      (db, result_map (λ m, Json_dict [("message", m)]) r)
  | Health => (items_db, Ok (Json_dict (health_check settings)))
  end.

(** A request with the credentials of its [Authorization] header.  The
    dependency [require_api_key] is resolved before the handler runs;
    when it raises, the handler does not run. *)
Definition respond (settings : Config.Settings)
    (creds : option Auth.HTTPAuthorizationCredentials)
    (items_db : list Item) (rq : request) : list Item * result body :=
  if needs_key rq then
    match Auth.require_api_key (Config.security settings) creds with
    | Ok _ => endpoint settings items_db rq
    | Raise e => (items_db, Raise e)
    end
  else endpoint settings items_db rq.

Definition call : Type :=
  option Auth.HTTPAuthorizationCredentials * request.

(** The calls are answered one after the other on the same list. *)
Fixpoint serve_calls (settings : Config.Settings) (items_db : list Item)
    (calls : list call) : list Item * list (result body) :=
  match calls with
  | [] => (items_db, [])
  | (creds, rq) :: calls' =>
      let '(db, r) := respond settings creds items_db rq in
      let '(db', rs) := serve_calls settings db calls' in
      (db', r :: rs)
  end.

(** The calls that get past the dependency. *)
Definition admitted (settings : Config.Settings) (c : call) : bool :=
  negb (needs_key c.2) ||
  is_ok (Auth.require_api_key (Config.security settings) c.1).












End Api.

(** ** Sample settings and calls *)

Module ApiSamples.
Import Registry Api.

(** The defaults with a secret set. *)
Definition locked : Config.Settings :=
  {| Config.APP_NAME := "AWS ECS API Template";
     Config.APP_VERSION := "1.0.0";
     Config.DEBUG := false;
     Config.API_V1_STR := "/api/v1";
     Config.AWS_REGION := "us-east-1";
     Config.AWS_ACCOUNT_ID := None;
     Config.ECR_REPOSITORY_URI := None;
     Config.ECS_CLUSTER_NAME := None;
     Config.ECS_SERVICE_NAME := None;
     Config.ENVIRONMENT := "dev";
     Config.API_KEY := Some "s3cret";
     Config.ENABLE_API_KEY_AUTH := true;
     Config.ENABLE_API_KEY_DOCS := true |}.

(** A create with the key, a delete without it, a read with a wrong
    token, and an update with the key. *)
Definition mixed_calls : list call :=
  [ (Samples.bearer "s3cret", CreateItem Samples.widget);
    (None, DeleteItem 1);
    (Samples.bearer "guess", GetItem 1);
    (Samples.bearer "s3cret", UpdateItem 1 Samples.widget2) ].

End ApiSamples.

(** ** Counting over runs *)

Module Counting.
Import Registry Trace.

(** How many deletes of a run succeeded. *)
Fixpoint deletions (rs : list response) : nat :=
  match rs with
  | [] => 0
  | Deleted (Ok _) :: rs' => S (deletions rs')
  | _ :: rs' => deletions rs'
  end.

(** The ids of a list lie between one and a bound. *)
Definition ids_within (bound : nat) (items_db : list Item) : Prop :=
  Forall (λ item, 1 ≤ id item ≤ Z.of_nat bound) items_db.

End Counting.

(** ** The scans *)

Section Scans.
Import Registry Trace.

Implicit Types (items_db pre rest l : list Item) (item : Item).
Implicit Types (item_id : Z) (fields : ItemCreate).

Lemma id_eqb_same item item_id :
  id item = item_id → (id item =? item_id) = true.
Proof. apply Z.eqb_eq. Qed.

Lemma id_eqb_other item item_id :
  id item ≠ item_id → (id item =? item_id) = false.
Proof. apply Z.eqb_neq. Qed.

(** A list lacks the id, or splits at the first item that carries it. *)
Lemma first_match items_db item_id :
  lacks_id items_db item_id ∨
  ∃ l1 item l2,
    items_db = l1 ++ item :: l2 ∧ lacks_id l1 item_id ∧ id item = item_id.
Proof.
  induction items_db as [|x items_db IH].
  - left. constructor.
  - destruct (Z.eq_dec (id x) item_id) as [Heq|Hne].
    + right. exists [], x, items_db. repeat split; [constructor | done].
    + destruct IH as [Hnone|(l1 & item & l2 & -> & Hl1 & Hid)].
      * left. by constructor.
      * right. exists (x :: l1), item, l2.
        repeat split; [by constructor | done].
Qed.

Lemma lacks_id_not_has items_db item_id :
  lacks_id items_db item_id ↔ ¬ has_id items_db item_id.
Proof.
  unfold lacks_id, has_id. rewrite Forall_forall. split.
  - intros Hall (item & Hin & Hid). by apply (Hall item).
  - intros Hno item Hin Hid. apply Hno. by exists item.
Qed.

Lemma has_id_split l1 item l2 :
  has_id (l1 ++ item :: l2) (id item).
Proof.
  exists item. split; [|done].
  apply elem_of_app. right. apply elem_of_cons. by left.
Qed.

(** *** [get_item] *)

Lemma get_item_lacks items_db item_id :
  lacks_id items_db item_id → get_item items_db item_id = Raise NotFound.
Proof.
  induction 1 as [|x l Hx _ IH]; simpl; [done|].
  by rewrite id_eqb_other.
Qed.

Lemma get_item_split l1 item l2 item_id :
  lacks_id l1 item_id → id item = item_id →
  get_item (l1 ++ item :: l2) item_id = Ok item.
Proof.
  intros Hl1 Hid. induction Hl1 as [|x l Hx _ IH]; simpl.
  - by rewrite id_eqb_same.
  - by rewrite id_eqb_other.
Qed.

(** *** [update_item] *)

Lemma update_loop_lacks items_db rest item_id fields i :
  lacks_id rest item_id →
  update_loop items_db item_id fields rest i = (items_db, Raise NotFound).
Proof.
  intros Hrest. revert i.
  induction Hrest as [|x l Hx _ IH]; intros i; simpl; [done|].
  by rewrite id_eqb_other.
Qed.

(** The invariant of the loop: the index is the length of what the scan
    has passed. *)
Lemma update_loop_split pre l1 item l2 item_id fields :
  lacks_id l1 item_id → id item = item_id →
  update_loop (pre ++ l1 ++ item :: l2) item_id fields
    (l1 ++ item :: l2) (length pre)
  = (pre ++ l1 ++ Item_of item_id fields :: l2,
     Ok (Item_of item_id fields)).
Proof.
  intros Hl1 Hid. revert pre.
  induction Hl1 as [|x l Hx _ IH]; intros pre; simpl.
  - rewrite id_eqb_same by done.
    by rewrite <- (Nat.add_0_r (length pre)), insert_app_r.
  - rewrite id_eqb_other by done.
    specialize (IH (pre ++ [x])).
    rewrite length_app, Nat.add_1_r, <- !app_assoc in IH. exact IH.
Qed.

Lemma update_item_lacks items_db item_id fields :
  lacks_id items_db item_id →
  update_item items_db item_id fields = (items_db, Raise NotFound).
Proof. apply update_loop_lacks. Qed.

Lemma update_item_split l1 item l2 item_id fields :
  lacks_id l1 item_id → id item = item_id →
  update_item (l1 ++ item :: l2) item_id fields
  = (l1 ++ Item_of item_id fields :: l2, Ok (Item_of item_id fields)).
Proof. intros Hl1 Hid. by apply (update_loop_split []). Qed.

(** *** [delete_item] *)

Lemma delete_loop_lacks items_db rest item_id i :
  lacks_id rest item_id →
  delete_loop items_db item_id rest i = (items_db, Raise NotFound).
Proof.
  intros Hrest. revert i.
  induction Hrest as [|x l Hx _ IH]; intros i; simpl; [done|].
  by rewrite id_eqb_other.
Qed.

Lemma delete_loop_split pre l1 item l2 item_id :
  lacks_id l1 item_id → id item = item_id →
  delete_loop (pre ++ l1 ++ item :: l2) item_id
    (l1 ++ item :: l2) (length pre)
  = (pre ++ l1 ++ l2, Ok (deleted_message item_id)).
Proof.
  intros Hl1 Hid. revert pre.
  induction Hl1 as [|x l Hx _ IH]; intros pre; simpl.
  - rewrite id_eqb_same by done. by rewrite delete_middle.
  - rewrite id_eqb_other by done.
    specialize (IH (pre ++ [x])).
    rewrite length_app, Nat.add_1_r, <- !app_assoc in IH. exact IH.
Qed.

Lemma delete_item_lacks items_db item_id :
  lacks_id items_db item_id →
  delete_item items_db item_id = (items_db, Raise NotFound).
Proof. apply delete_loop_lacks. Qed.

Lemma delete_item_split l1 item l2 item_id :
  lacks_id l1 item_id → id item = item_id →
  delete_item (l1 ++ item :: l2) item_id
  = (l1 ++ l2, Ok (deleted_message item_id)).
Proof. intros Hl1 Hid. by apply (delete_loop_split []). Qed.

End Scans.

(** ** The guard *)

Section Guard.
Import Auth.

Lemma truthy_false (s : option string) :
  truthy s = false ↔ s = None ∨ s = Some "".
Proof.
  destruct s as [s|]; simpl.
  - rewrite negb_false_iff, String.eqb_eq. split.
    + intros ->. by right.
    + by intros [?|[= ->]].
  - split; [by left | done].
Qed.

Lemma guard_off_test settings :
  guard_off settings ↔
  negb (ENABLE_API_KEY_AUTH settings) || negb (truthy (API_KEY settings))
  = true.
Proof.
  unfold guard_off.
  rewrite orb_true_iff, !negb_true_iff, truthy_false. tauto.
Qed.

(** C2.  Whatever the settings and whatever the request presents:
    with authentication switched off or no secret set, [get_api_key]
    returns ["bypass"]; otherwise a secret is set, and [get_api_key]
    returns the presented token when that token is the secret, and
    raises the 401 [APIKeyError] when the token differs or is absent. *)
Theorem get_api_key_decides settings creds :
  let r := get_api_key settings creds in
  (guard_off settings ∧ r = Ok "bypass") ∨
  (¬ guard_off settings ∧
   ∃ secret, API_KEY settings = Some secret ∧
     ((presented creds = Some secret ∧ r = Ok secret) ∨
      (presented creds ≠ Some secret ∧ r = Raise APIKeyError))).
Proof.
  intros r. subst r. unfold get_api_key.
  destruct (negb (ENABLE_API_KEY_AUTH settings)
            || negb (truthy (API_KEY settings))) eqn:Hoff.
  - left. split; [by apply guard_off_test | done].
  - right. split.
    { rewrite guard_off_test, Hoff. done. }
    apply orb_false_iff in Hoff as [_ Hkey].
    destruct (API_KEY settings) as [secret|] eqn:Hsecret; [|done].
    exists secret. split; [done|].
    destruct creds as [c|]; simpl.
    + case_bool_decide as Hc; simpl.
      * left. by injection Hc as ->.
      * right. split; [|done]. intros [= Heq]. apply Hc. by rewrite Heq.
    + right. done.
Qed.

(** Scenario 2 of the specification: no header, a secret set. *)
Example get_api_key_no_header :
  get_api_key Samples.guarded None = Raise APIKeyError.
Proof. reflexivity. Qed.

Example get_api_key_right_token :
  get_api_key Samples.guarded (Samples.bearer "s3cret") = Ok "s3cret".
Proof. reflexivity. Qed.

Example get_api_key_wrong_token :
  get_api_key Samples.guarded (Samples.bearer "bypass") = Raise APIKeyError.
Proof. reflexivity. Qed.

Example get_api_key_no_secret :
  get_api_key (mkSettings None true) None = Ok "bypass".
Proof. reflexivity. Qed.

End Guard.

(** ** The registry, one request at a time *)

Section Handlers.
Import Registry Trace.

Implicit Types (items_db l : list Item) (item : Item).
Implicit Types (item_id : Z) (fields : ItemCreate).

(** C5.  When some item carries [item_id], [update_item] writes
    [Item(id=item_id, **fields)] over the first such item, at that
    item's position, and returns it: its id is [item_id], its name,
    description and price are those of [fields], and [get_item] on the
    list it leaves returns it. *)
Theorem update_item_in_place items_db item_id fields :
  has_id items_db item_id →
  ∃ l1 old l2,
    items_db = l1 ++ old :: l2 ∧ lacks_id l1 item_id ∧ id old = item_id ∧
    let updated := Item_of item_id fields in
    update_item items_db item_id fields = (l1 ++ updated :: l2, Ok updated) ∧
    id updated = item_id ∧
    name updated = ic_name fields ∧
    description updated = ic_description fields ∧
    price updated = ic_price fields ∧
    get_item (l1 ++ updated :: l2) item_id = Ok updated.
Proof.
  intros Hhas.
  destruct (first_match items_db item_id)
    as [Hnone|(l1 & old & l2 & -> & Hl1 & Hid)].
  { by apply lacks_id_not_has in Hnone. }
  exists l1, old, l2. repeat split; try done.
  - by apply update_item_split.
  - by apply get_item_split.
Qed.

Lemma update_item_in_place_witness :
  has_id Samples.twice_two 2 ∧
  ∃ l1 old l2,
    Samples.twice_two = l1 ++ old :: l2 ∧ lacks_id l1 2 ∧ id old = 2 ∧
    let updated := Item_of 2 Samples.widget in
    update_item Samples.twice_two 2 Samples.widget
    = (l1 ++ updated :: l2, Ok updated) ∧
    id updated = 2 ∧
    name updated = ic_name Samples.widget ∧
    description updated = ic_description Samples.widget ∧
    price updated = ic_price Samples.widget ∧
    get_item (l1 ++ updated :: l2) 2 = Ok updated.
Proof.
  assert (H : has_id Samples.twice_two 2).
  { exists (Item_of 2 Samples.gadget). split; [|reflexivity].
    apply elem_of_cons. left. reflexivity. }
  split; [exact H|].
  exact (update_item_in_place Samples.twice_two 2 Samples.widget H).
Defined.

(** C8.  For every list and id, each of [get_item], [update_item] and
    [delete_item] raises exactly when no item carries the id; what it
    raises is the 404, and [update_item] and [delete_item] then leave
    the list as it was ([get_item] never writes to it). *)
Theorem not_found_exactly_when_absent items_db item_id fields :
  (is_ok (get_item items_db item_id) = false ↔ ¬ has_id items_db item_id) ∧
  (get_item items_db item_id = Raise NotFound ↔ ¬ has_id items_db item_id) ∧
  (is_ok (update_item items_db item_id fields).2 = false
   ↔ ¬ has_id items_db item_id) ∧
  (update_item items_db item_id fields = (items_db, Raise NotFound)
   ↔ ¬ has_id items_db item_id) ∧
  (is_ok (delete_item items_db item_id).2 = false
   ↔ ¬ has_id items_db item_id) ∧
  (delete_item items_db item_id = (items_db, Raise NotFound)
   ↔ ¬ has_id items_db item_id).
Proof.
  destruct (first_match items_db item_id)
    as [Hnone|(l1 & item & l2 & -> & Hl1 & Hid)].
  - rewrite get_item_lacks, update_item_lacks, delete_item_lacks by done.
    apply lacks_id_not_has in Hnone. simpl. tauto.
  - rewrite get_item_split, update_item_split, delete_item_split by done.
    assert (Hhas : has_id (l1 ++ item :: l2) item_id).
    { rewrite <- Hid. apply has_id_split. }
    simpl. repeat split; try done; intros [= _].
Qed.

(** C9.  Whatever follows it in the list, items of the same id
    included, the first item that carries [item_id] is the one that
    [get_item] returns, that [update_item] overwrites and that
    [delete_item] removes; the items before it and after it stay as they
    were. *)
Theorem first_match_wins l1 item l2 item_id fields :
  lacks_id l1 item_id → id item = item_id →
  get_item (l1 ++ item :: l2) item_id = Ok item ∧
  update_item (l1 ++ item :: l2) item_id fields
  = (l1 ++ Item_of item_id fields :: l2, Ok (Item_of item_id fields)) ∧
  delete_item (l1 ++ item :: l2) item_id
  = (l1 ++ l2, Ok (deleted_message item_id)).
Proof.
  intros Hl1 Hid. split; [|split].
  - by apply get_item_split.
  - by apply update_item_split.
  - by apply delete_item_split.
Qed.

Lemma first_match_wins_witness :
  lacks_id [Item_of 1 Samples.widget] 2 ∧
  id (Item_of 2 Samples.gadget) = 2 ∧
  get_item ([Item_of 1 Samples.widget] ++ Samples.twice_two) 2
  = Ok (Item_of 2 Samples.gadget) ∧
  update_item ([Item_of 1 Samples.widget] ++ Samples.twice_two) 2
    Samples.widget
  = ([Item_of 1 Samples.widget] ++
       Item_of 2 Samples.widget :: [Item_of 2 Samples.widget2],
     Ok (Item_of 2 Samples.widget)) ∧
  delete_item ([Item_of 1 Samples.widget] ++ Samples.twice_two) 2
  = ([Item_of 1 Samples.widget] ++ [Item_of 2 Samples.widget2],
     Ok (deleted_message 2)).
Proof.
  assert (H1 : lacks_id [Item_of 1 Samples.widget] 2).
  { repeat constructor. simpl. lia. }
  split; [exact H1|]. split; [reflexivity|].
  exact (first_match_wins [Item_of 1 Samples.widget]
           (Item_of 2 Samples.gadget) [Item_of 2 Samples.widget2] 2
           Samples.widget H1 eq_refl).
Defined.

(** C10.  When [update_item] returns an item, the list it leaves has
    the length of the list it found, holds the returned item at the
    position of the first item that carried the id, and holds at every
    other position what was there before. *)
Theorem update_item_frame items_db item_id fields db' updated :
  update_item items_db item_id fields = (db', Ok updated) →
  length db' = length items_db ∧
  ∃ pos old,
    items_db !! pos = Some old ∧ id old = item_id ∧
    (∀ j y, (j < pos)%nat → items_db !! j = Some y → id y ≠ item_id) ∧
    db' !! pos = Some updated ∧
    ∀ j, j ≠ pos → db' !! j = items_db !! j.
Proof.
  intros Hupd.
  destruct (first_match items_db item_id)
    as [Hnone|(l1 & old & l2 & -> & Hl1 & Hid)].
  { by rewrite update_item_lacks in Hupd. }
  rewrite update_item_split in Hupd by done.
  injection Hupd as <- <-. split.
  { by rewrite !length_app. }
  exists (length l1), old. repeat split.
  - by apply list_lookup_middle.
  - done.
  - intros j y Hj Hy. rewrite lookup_app_l in Hy by done.
    unfold lacks_id in Hl1. rewrite Forall_lookup in Hl1. by eapply Hl1.
  - by apply list_lookup_middle.
  - intros j Hj.
    destruct (decide (j < length l1)%nat) as [Hlt|Hge].
    + by rewrite !lookup_app_l.
    + rewrite !lookup_app_r by lia.
      destruct (j - length l1)%nat as [|k] eqn:Hk; [lia | done].
Qed.

Lemma update_item_frame_witness :
  update_item Samples.twice_two 2 Samples.widget
  = ([Item_of 2 Samples.widget; Item_of 2 Samples.widget2],
     Ok (Item_of 2 Samples.widget)) ∧
  length [Item_of 2 Samples.widget; Item_of 2 Samples.widget2]
  = length Samples.twice_two ∧
  ∃ pos old,
    Samples.twice_two !! pos = Some old ∧ id old = 2 ∧
    (∀ j y, (j < pos)%nat → Samples.twice_two !! j = Some y → id y ≠ 2) ∧
    [Item_of 2 Samples.widget; Item_of 2 Samples.widget2] !! pos
    = Some (Item_of 2 Samples.widget) ∧
    ∀ j, j ≠ pos →
      [Item_of 2 Samples.widget; Item_of 2 Samples.widget2] !! j
      = Samples.twice_two !! j.
Proof.
  split; [reflexivity|].
  exact (update_item_frame Samples.twice_two 2 Samples.widget
           [Item_of 2 Samples.widget; Item_of 2 Samples.widget2]
           (Item_of 2 Samples.widget) eq_refl).
Defined.

End Handlers.

(** ** Runs of requests *)

Section Runs.
Import Registry Trace.

Implicit Types (items_db l : list Item) (item : Item).
Implicit Types (item_id : Z) (fields : ItemCreate).
Implicit Types (rqs : list request) (fs : list ItemCreate).

Lemma serve_cons items_db rq rqs :
  serve items_db (rq :: rqs)
  = ((serve (handle items_db rq).1 rqs).1,
     (handle items_db rq).2 :: (serve (handle items_db rq).1 rqs).2).
Proof.
  simpl. destruct (handle items_db rq) as [db r]. simpl.
  by destruct (serve db rqs).
Qed.

Lemma serve_app items_db rqs1 rqs2 :
  (serve items_db (rqs1 ++ rqs2)).1
  = (serve (serve items_db rqs1).1 rqs2).1.
Proof.
  revert items_db. induction rqs1 as [|rq rqs1 IH]; intros items_db.
  - done.
  - rewrite <- app_comm_cons, !serve_cons. simpl. apply IH.
Qed.

(** [update_item] changes neither the length nor the ids. *)
Lemma update_item_ids items_db item_id fields :
  id <$> (update_item items_db item_id fields).1 = id <$> items_db.
Proof.
  destruct (first_match items_db item_id)
    as [Hnone|(l1 & old & l2 & -> & Hl1 & Hid)].
  - by rewrite update_item_lacks.
  - rewrite update_item_split by done. simpl.
    rewrite !fmap_app, !fmap_cons. simpl. by rewrite Hid.
Qed.

Lemma update_item_length items_db item_id fields :
  length (update_item items_db item_id fields).1 = length items_db.
Proof.
  rewrite <- (length_fmap id), update_item_ids. apply length_fmap.
Qed.

(** Without deletes the list grows by one item per creation. *)
Lemma serve_length items_db rqs :
  no_deletes rqs = true →
  length (serve items_db rqs).1 = (length items_db + creations rqs)%nat.
Proof.
  revert items_db. induction rqs as [|rq rqs IH]; intros items_db Hnd.
  - simpl. unfold creations. simpl. lia.
  - simpl in Hnd. apply andb_true_iff in Hnd as [Hrq Hnd].
    rewrite serve_cons. simpl. rewrite IH by done.
    destruct rq as [fields|item_id fields|item_id]; simpl in *.
    + unfold creations. rewrite filter_cons_True by done.
      rewrite length_app. simpl. lia.
    + unfold creations. rewrite filter_cons_False by done.
      destruct (update_item items_db item_id fields) as [db r] eqn:Hupd.
      simpl. change db with (db, r).1. rewrite <- Hupd.
      by rewrite update_item_length.
    + done.
Qed.

(** Without deletes the ids in the list count up from one. *)
Lemma serve_ids items_db rqs :
  no_deletes rqs = true →
  id <$> items_db = seqZ 1 (Z.of_nat (length items_db)) →
  id <$> (serve items_db rqs).1
  = seqZ 1 (Z.of_nat (length (serve items_db rqs).1)).
Proof.
  revert items_db. induction rqs as [|rq rqs IH]; intros items_db Hnd Hids.
  - done.
  - simpl in Hnd. apply andb_true_iff in Hnd as [Hrq Hnd].
    rewrite serve_cons. simpl. apply IH; [done|].
    destruct rq as [fields|item_id fields|item_id]; simpl in *.
    + rewrite fmap_app, length_app, Hids. simpl.
      rewrite Nat.add_1_r, seqZ_S. do 2 f_equal. lia.
    + destruct (update_item items_db item_id fields) as [db r] eqn:Hupd.
      simpl. change db with (db, r).1. rewrite <- Hupd.
      by rewrite update_item_ids, update_item_length.
    + done.
Qed.

(** A run of creations returns the ids that follow the length of the
    list it starts from. *)
Lemma creations_ids items_db fs :
  created_ids (serve items_db (Create <$> fs)).2
  = seqZ (Z.of_nat (length items_db) + 1) (Z.of_nat (length fs)).
Proof.
  revert items_db. induction fs as [|fields fs IH]; intros items_db.
  - done.
  - rewrite fmap_cons, serve_cons. simpl. rewrite IH, length_app. simpl.
    rewrite (seqZ_cons _ (Z.of_nat (S (length fs)))) by lia.
    f_equal. f_equal; lia.
Qed.

Lemma seqZ_increasing m (n : nat) :
  StronglySorted Z.lt (seqZ m (Z.of_nat n)).
Proof.
  revert m. induction n as [|n IH]; intros m.
  - constructor.
  - rewrite seqZ_cons by lia. constructor.
    + replace (Z.pred (Z.of_nat (S n))) with (Z.of_nat n) by lia. apply IH.
    + apply Forall_forall. intros k Hk. apply elem_of_seqZ in Hk. lia.
Qed.

(** C3.  After any run of creations and updates from the empty list
    (no delete), a run of creations returns the ids that continue the
    count of the items created so far: the first of them is that count
    plus one, each next one is one more, so that the k-th item ever
    created has id k and the ids returned increase strictly. *)
Theorem create_ids_in_creation_order rqs fs :
  no_deletes rqs = true →
  let items_db := (serve [] rqs).1 in
  let ids := created_ids (serve items_db (Create <$> fs)).2 in
  ids = seqZ (Z.of_nat (creations rqs) + 1) (Z.of_nat (length fs)) ∧
  (∀ k, (k < length fs)%nat →
        ids !! k = Some (Z.of_nat (creations rqs + k) + 1)) ∧
  StronglySorted Z.lt ids.
Proof.
  intros Hnd items_db ids. subst ids items_db.
  rewrite creations_ids, serve_length by done. simpl.
  split; [done|]. split.
  - intros k Hk. rewrite lookup_seqZ_lt by lia. f_equal. lia.
  - apply seqZ_increasing.
Qed.

Lemma create_ids_in_creation_order_witness :
  no_deletes Samples.no_delete_run = true ∧
  created_ids
    (serve (serve [] Samples.no_delete_run).1
       (Create <$> [Samples.widget; Samples.gadget])).2
  = seqZ (Z.of_nat (creations Samples.no_delete_run) + 1)
      (Z.of_nat (length [Samples.widget; Samples.gadget])) ∧
  (∀ k, (k < length [Samples.widget; Samples.gadget])%nat →
        created_ids
          (serve (serve [] Samples.no_delete_run).1
             (Create <$> [Samples.widget; Samples.gadget])).2 !! k
        = Some (Z.of_nat (creations Samples.no_delete_run + k) + 1)) ∧
  StronglySorted Z.lt
    (created_ids
       (serve (serve [] Samples.no_delete_run).1
          (Create <$> [Samples.widget; Samples.gadget])).2).
Proof.
  split; [reflexivity|].
  exact (create_ids_in_creation_order Samples.no_delete_run
           [Samples.widget; Samples.gadget] eq_refl).
Defined.

End Runs.

(** ** Ids after a delete *)

Section AfterDelete.
Import Registry Trace Samples.

Implicit Types (items_db l : list Item) (item : Item).
Implicit Types (item_id : Z) (fields : ItemCreate).

Lemma reachable_one_left : reachable one_left.
Proof. exists [Create widget; Create gadget; Delete 1]. reflexivity. Qed.

Lemma reachable_twice_two : reachable twice_two.
Proof. exists delete_then_create. reflexivity. Qed.

Lemma has_id_twice_two : has_id twice_two 2.
Proof.
  exists (Item_of 2 gadget). split; [|reflexivity].
  apply elem_of_cons. by left.
Qed.

Lemma deleted_message_1 : deleted_message 1 = "Item 1 deleted successfully".
Proof. vm_compute. reflexivity. Qed.

(** Whatever the list, deleting an id that some item carries returns
    the message and leaves a list shorter by one. *)
Lemma delete_item_shrinks items_db item_id :
  has_id items_db item_id →
  ∃ db', delete_item items_db item_id = (db', Ok (deleted_message item_id)) ∧
         length items_db = S (length db').
Proof.
  intros Hhas.
  destruct (first_match items_db item_id)
    as [Hnone|(l1 & item & l2 & -> & Hl1 & Hid)].
  { by apply lacks_id_not_has in Hnone. }
  exists (l1 ++ l2). split; [by apply delete_item_split|].
  rewrite !length_app. simpl. lia.
Qed.

(** As long as the ids in the list are distinct, a deleted id is gone:
    [get_item] and a second [delete_item] raise the 404. *)
Lemma delete_item_distinct_ids items_db item_id :
  NoDup (id <$> items_db) → has_id items_db item_id →
  ∃ db', delete_item items_db item_id = (db', Ok (deleted_message item_id)) ∧
         get_item db' item_id = Raise NotFound ∧
         delete_item db' item_id = (db', Raise NotFound).
Proof.
  intros Hnodup Hhas.
  destruct (first_match items_db item_id)
    as [Hnone|(l1 & item & l2 & -> & Hl1 & Hid)].
  { by apply lacks_id_not_has in Hnone. }
  exists (l1 ++ l2).
  assert (Hgone : lacks_id (l1 ++ l2) item_id).
  { apply Forall_app. split; [done|].
    rewrite fmap_app, fmap_cons in Hnodup.
    apply NoDup_app in Hnodup as (_ & _ & Hnodup).
    apply NoDup_cons in Hnodup as [Hfresh _].
    apply Forall_forall. intros y Hy Heq. apply Hfresh.
    rewrite Hid, <- Heq. apply list_elem_of_fmap. by exists y. }
  split; [by apply delete_item_split|]. split.
  - by apply get_item_lacks.
  - by apply delete_item_lacks.
Qed.

(** As long as no item carries the length plus one, [get_item] finds
    the item that [create_item] has just returned. *)
Lemma create_item_fresh_id items_db fields :
  lacks_id items_db (Z.of_nat (length items_db) + 1) →
  get_item (create_item items_db fields).1
    (id (create_item items_db fields).2)
  = Ok (create_item items_db fields).2.
Proof.
  intros Hfresh. simpl. by apply get_item_split.
Qed.

(** C1.  The claim fails on the code.  Two creations, a delete of id 1
    and one more creation leave two items of id 2 in the list; and a
    creation, the delete of that item and one more creation give the
    id 1 a second time. *)
Theorem id_collision_after_delete :
  (serve [] delete_then_create).1 = twice_two ∧
  ¬ NoDup (id <$> twice_two) ∧
  (serve [] create_again).2
  = [Created (Item_of 1 widget);
     Deleted (Ok (deleted_message 1));
     Created (Item_of 1 gadget)].
Proof.
  split; [reflexivity|]. split; [|reflexivity].
  simpl. rewrite NoDup_cons. intros [Hfresh _].
  apply Hfresh, elem_of_cons. by left.
Qed.

(** C4.  The claim fails on the code.  On the reachable list that holds
    the one item of id 2, [create_item] returns a new item of id 2, and
    [get_item 2] on the list it leaves returns the older item. *)
Theorem create_then_get_older_item :
  reachable one_left ∧
  create_item one_left widget2 = (twice_two, Item_of 2 widget2) ∧
  get_item twice_two 2 = Ok (Item_of 2 gadget) ∧
  Item_of 2 gadget ≠ Item_of 2 widget2.
Proof.
  split; [apply reachable_one_left|].
  split; [reflexivity|]. split; [reflexivity|]. discriminate.
Qed.

(** C6.  The claim fails on the code.  On the reachable list with two
    items of id 2, [delete_item 2] removes the first of them, and
    [get_item 2] on the list it leaves returns the second instead of
    raising the 404. *)
Theorem delete_then_get_twin :
  reachable twice_two ∧ has_id twice_two 2 ∧
  delete_item twice_two 2
  = ([Item_of 2 widget2], Ok (deleted_message 2)) ∧
  get_item [Item_of 2 widget2] 2 = Ok (Item_of 2 widget2).
Proof.
  split; [apply reachable_twice_two|].
  split; [apply has_id_twice_two|].
  split; reflexivity.
Qed.

(** C7.  The claim fails on the code.  On the reachable list with two
    items of id 2, [delete_item 2] succeeds twice in a row: the second
    call removes the second item instead of raising the 404. *)
Theorem delete_twice_both_succeed :
  reachable twice_two ∧ has_id twice_two 2 ∧
  delete_item twice_two 2
  = ([Item_of 2 widget2], Ok (deleted_message 2)) ∧
  delete_item [Item_of 2 widget2] 2 = ([], Ok (deleted_message 2)).
Proof.
  split; [apply reachable_twice_two|].
  split; [apply has_id_twice_two|].
  split; reflexivity.
Qed.

End AfterDelete.

(** ** The scans, item by item *)

Section Unfolding.
Import Registry Trace.

Implicit Types (items_db rest l : list Item) (item x : Item).
Implicit Types (item_id : Z) (fields : ItemCreate).

Lemma update_loop_shift x items_db item_id fields rest i :
  update_loop (x :: items_db) item_id fields rest (S i)
  = (x :: (update_loop items_db item_id fields rest i).1,
     (update_loop items_db item_id fields rest i).2).
Proof.
  revert i. induction rest as [|y rest IH]; intros i; simpl; [done|].
  destruct (id y =? item_id); [done | apply IH].
Qed.

Lemma delete_loop_shift x items_db item_id rest i :
  delete_loop (x :: items_db) item_id rest (S i)
  = (x :: (delete_loop items_db item_id rest i).1,
     (delete_loop items_db item_id rest i).2).
Proof.
  revert i. induction rest as [|y rest IH]; intros i; simpl; [done|].
  destruct (id y =? item_id); [done | apply IH].
Qed.

(** The scan of [update_item], read from the head of the list. *)
Lemma update_item_cons x l item_id fields :
  update_item (x :: l) item_id fields
  = if id x =? item_id
    then (Item_of item_id fields :: l, Ok (Item_of item_id fields))
    else (x :: (update_item l item_id fields).1,
          (update_item l item_id fields).2).
Proof.
  unfold update_item. simpl.
  destruct (id x =? item_id); [done | apply update_loop_shift].
Qed.

(** The scan of [delete_item], read from the head of the list. *)
Lemma delete_item_cons x l item_id :
  delete_item (x :: l) item_id
  = if id x =? item_id
    then (l, Ok (deleted_message item_id))
    else (x :: (delete_item l item_id).1, (delete_item l item_id).2).
Proof.
  unfold delete_item. simpl.
  destruct (id x =? item_id); [done | apply delete_loop_shift].
Qed.

Lemma id_Item_of item_id fields : id (Item_of item_id fields) = item_id.
Proof. done. Qed.

End Unfolding.

(** ** More on single requests *)

Section MoreHandlers.
Import Registry Trace.

Implicit Types (items_db l : list Item) (item x : Item).
Implicit Types (item_id other : Z) (fields : ItemCreate).

(** X1.  What [get_item] returns is in the list, carries the id asked
    for, and no item before it carries that id. *)
Theorem get_item_sound items_db item_id item :
  get_item items_db item_id = Ok item →
  id item = item_id ∧
  ∃ pos, items_db !! pos = Some item ∧
    ∀ j y, (j < pos)%nat → items_db !! j = Some y → id y ≠ item_id.
Proof.
  intros Hget.
  destruct (first_match items_db item_id)
    as [Hnone|(l1 & found & l2 & -> & Hl1 & Hid)].
  { by rewrite get_item_lacks in Hget. }
  rewrite get_item_split in Hget by done. injection Hget as ->.
  split; [done|]. exists (length l1). split.
  - by apply list_lookup_middle.
  - intros j y Hj Hy. rewrite lookup_app_l in Hy by done.
    unfold lacks_id in Hl1. rewrite Forall_lookup in Hl1. by eapply Hl1.
Qed.

Lemma get_item_sound_witness :
  get_item Samples.twice_two 2 = Ok (Item_of 2 Samples.gadget) ∧
  id (Item_of 2 Samples.gadget) = 2 ∧
  ∃ pos, Samples.twice_two !! pos = Some (Item_of 2 Samples.gadget) ∧
    ∀ j y, (j < pos)%nat → Samples.twice_two !! j = Some y → id y ≠ 2.
Proof.
  split; [reflexivity|].
  exact (get_item_sound Samples.twice_two 2 (Item_of 2 Samples.gadget)
           eq_refl).
Defined.

(** X2.  When [delete_item] succeeds, its message names the id, the
    list it leaves is shorter by one, the items before the first match
    keep their positions and the items after it move up by one. *)
Theorem delete_item_frame items_db item_id db' message :
  delete_item items_db item_id = (db', Ok message) →
  message = deleted_message item_id ∧
  length items_db = S (length db') ∧
  ∃ pos old,
    items_db !! pos = Some old ∧ id old = item_id ∧
    (∀ j y, (j < pos)%nat → items_db !! j = Some y → id y ≠ item_id) ∧
    (∀ j, (j < pos)%nat → db' !! j = items_db !! j) ∧
    (∀ j, (pos ≤ j)%nat → db' !! j = items_db !! S j).
Proof.
  intros Hdel.
  destruct (first_match items_db item_id)
    as [Hnone|(l1 & old & l2 & -> & Hl1 & Hid)].
  { by rewrite delete_item_lacks in Hdel. }
  rewrite delete_item_split in Hdel by done.
  injection Hdel as <- <-. split; [done|]. split.
  { rewrite !length_app. simpl. lia. }
  exists (length l1), old. repeat split.
  - by apply list_lookup_middle.
  - done.
  - intros j y Hj Hy. rewrite lookup_app_l in Hy by done.
    unfold lacks_id in Hl1. rewrite Forall_lookup in Hl1. by eapply Hl1.
  - intros j Hj. by rewrite !lookup_app_l.
  - intros j Hj. rewrite !lookup_app_r by lia.
    by replace (S j - length l1)%nat with (S (j - length l1)) by lia.
Qed.

Lemma delete_item_frame_witness :
  delete_item ([Item_of 1 Samples.widget] ++ Samples.twice_two) 2
  = ([Item_of 1 Samples.widget; Item_of 2 Samples.widget2],
     Ok (deleted_message 2)) ∧
  deleted_message 2 = deleted_message 2 ∧
  length ([Item_of 1 Samples.widget] ++ Samples.twice_two)
  = S (length [Item_of 1 Samples.widget; Item_of 2 Samples.widget2]) ∧
  ∃ pos old,
    ([Item_of 1 Samples.widget] ++ Samples.twice_two) !! pos = Some old ∧
    id old = 2 ∧
    (∀ j y, (j < pos)%nat →
       ([Item_of 1 Samples.widget] ++ Samples.twice_two) !! j = Some y →
       id y ≠ 2) ∧
    (∀ j, (j < pos)%nat →
       [Item_of 1 Samples.widget; Item_of 2 Samples.widget2] !! j
       = ([Item_of 1 Samples.widget] ++ Samples.twice_two) !! j) ∧
    (∀ j, (pos ≤ j)%nat →
       [Item_of 1 Samples.widget; Item_of 2 Samples.widget2] !! j
       = ([Item_of 1 Samples.widget] ++ Samples.twice_two) !! S j).
Proof.
  split; [reflexivity|].
  exact (delete_item_frame
           ([Item_of 1 Samples.widget] ++ Samples.twice_two) 2
           [Item_of 1 Samples.widget; Item_of 2 Samples.widget2]
           (deleted_message 2) eq_refl).
Defined.

(** X3.  [update_item] on one id changes nothing for [get_item] on
    another id. *)
Theorem update_item_other_id items_db item_id other fields :
  other ≠ item_id →
  get_item (update_item items_db item_id fields).1 other
  = get_item items_db other.
Proof.
  intros Hne. induction items_db as [|x l IH]; [done|].
  rewrite update_item_cons.
  destruct (id x =? item_id) eqn:Hx; simpl.
  - apply Z.eqb_eq in Hx. rewrite Hx.
    assert ((item_id =? other) = false) as ->
      by (apply Z.eqb_neq; congruence).
    done.
  - rewrite IH. done.
Qed.

Lemma update_item_other_id_witness :
  1 ≠ 2 ∧
  get_item
    (update_item ([Item_of 1 Samples.widget] ++ Samples.twice_two) 2
       Samples.widget).1 1
  = get_item ([Item_of 1 Samples.widget] ++ Samples.twice_two) 1.
Proof.
  assert (H : 1 ≠ 2) by lia.
  split; [exact H|].
  exact (update_item_other_id
           ([Item_of 1 Samples.widget] ++ Samples.twice_two) 2 1
           Samples.widget H).
Defined.

(** X4.  [delete_item] on one id changes nothing for [get_item] on
    another id. *)
Theorem delete_item_other_id items_db item_id other :
  other ≠ item_id →
  get_item (delete_item items_db item_id).1 other
  = get_item items_db other.
Proof.
  intros Hne. induction items_db as [|x l IH]; [done|].
  rewrite delete_item_cons.
  destruct (id x =? item_id) eqn:Hx; simpl.
  - apply Z.eqb_eq in Hx. rewrite Hx.
    assert ((item_id =? other) = false) as ->
      by (apply Z.eqb_neq; congruence).
    done.
  - rewrite IH. done.
Qed.

Lemma delete_item_other_id_witness :
  1 ≠ 2 ∧
  get_item
    (delete_item ([Item_of 1 Samples.widget] ++ Samples.twice_two) 2).1 1
  = get_item ([Item_of 1 Samples.widget] ++ Samples.twice_two) 1.
Proof.
  assert (H : 1 ≠ 2) by lia.
  split; [exact H|].
  exact (delete_item_other_id
           ([Item_of 1 Samples.widget] ++ Samples.twice_two) 2 1 H).
Defined.

End MoreHandlers.

(** ** Requests one after the other *)

Section Composition.
Import Registry Trace.

Implicit Types (items_db l : list Item) (item x : Item).
Implicit Types (item_id other : Z) (fields : ItemCreate).

Lemma get_item_app l1 l2 item_id :
  get_item (l1 ++ l2) item_id
  = match get_item l1 item_id with
    | Ok item => Ok item
    | Raise _ => get_item l2 item_id
    end.
Proof.
  induction l1 as [|x l1 IH]; simpl; [done|].
  by destruct (id x =? item_id).
Qed.

(** X5.  After [create_item], [get_item] returns for every id what it
    returned before whenever it returned an item; for an id that no
    item carried it returns the new item when the id is the new one,
    and raises the 404 otherwise. *)
Theorem get_item_after_create items_db fields item_id :
  get_item (create_item items_db fields).1 item_id
  = match get_item items_db item_id with
    | Ok item => Ok item
    | Raise _ =>
        if Z.of_nat (length items_db) + 1 =? item_id
        then Ok (create_item items_db fields).2
        else Raise NotFound
    end.
Proof. simpl. by rewrite get_item_app. Qed.

(** Rewriting one step of the two scans at the head of a list. *)
Ltac scan_head :=
  rewrite ?update_item_cons, ?delete_item_cons; simpl;
  rewrite ?Z.eqb_refl; simpl.

(** X6.  Of two [update_item] calls on the same id the second wins: the
    list and the answer are those of the second call alone. *)
Theorem update_item_last_wins items_db item_id fields1 fields2 :
  update_item (update_item items_db item_id fields1).1 item_id fields2
  = update_item items_db item_id fields2.
Proof.
  induction items_db as [|x l IH]; [done|].
  rewrite !(update_item_cons x).
  destruct (id x =? item_id) eqn:Hx; simpl.
  - scan_head. done.
  - rewrite update_item_cons, Hx, IH. done.
Qed.

(** X7.  Requests on different ids commute: two updates, an update and
    a delete, and two deletes leave the same list in either order. *)
Theorem different_ids_commute items_db item_id other fields1 fields2 :
  item_id ≠ other →
  (update_item (update_item items_db item_id fields1).1 other fields2).1
  = (update_item (update_item items_db other fields2).1 item_id fields1).1 ∧
  (delete_item (update_item items_db item_id fields1).1 other).1
  = (update_item (delete_item items_db other).1 item_id fields1).1 ∧
  (delete_item (delete_item items_db item_id).1 other).1
  = (delete_item (delete_item items_db other).1 item_id).1.
Proof.
  intros Hne.
  assert (Hio : (item_id =? other) = false) by by apply Z.eqb_neq.
  assert (Hoi : (other =? item_id) = false) by by apply Z.eqb_neq.
  induction items_db as [|x l (IH1 & IH2 & IH3)]; [done|].
  destruct (id x =? item_id) eqn:Hi; destruct (id x =? other) eqn:Ho.
  - apply Z.eqb_eq in Hi, Ho. congruence.
  - repeat split; scan_head; rewrite ?Hi, ?Ho; simpl;
      scan_head; rewrite ?Hi, ?Ho, ?Hio, ?Hoi; simpl; done.
  - repeat split; scan_head; rewrite ?Hi, ?Ho; simpl;
      scan_head; rewrite ?Hi, ?Ho, ?Hio, ?Hoi; simpl; done.
  - repeat split; scan_head; rewrite ?Hi, ?Ho; simpl;
      scan_head; rewrite ?Hi, ?Ho, ?Hio, ?Hoi; simpl;
      rewrite ?IH1, ?IH2, ?IH3; done.
Qed.

Lemma different_ids_commute_witness :
  2 ≠ 1 ∧
  (update_item
     (update_item ([Item_of 1 Samples.widget] ++ Samples.twice_two) 2
        Samples.widget).1 1 Samples.gadget).1
  = (update_item
       (update_item ([Item_of 1 Samples.widget] ++ Samples.twice_two) 1
          Samples.gadget).1 2 Samples.widget).1 ∧
  (delete_item
     (update_item ([Item_of 1 Samples.widget] ++ Samples.twice_two) 2
        Samples.widget).1 1).1
  = (update_item
       (delete_item ([Item_of 1 Samples.widget] ++ Samples.twice_two)
          1).1 2 Samples.widget).1 ∧
  (delete_item
     (delete_item ([Item_of 1 Samples.widget] ++ Samples.twice_two) 2).1
     1).1
  = (delete_item
       (delete_item ([Item_of 1 Samples.widget] ++ Samples.twice_two) 1).1
       2).1.
Proof.
  assert (H : 2 ≠ 1) by lia.
  split; [exact H|].
  exact (different_ids_commute
           ([Item_of 1 Samples.widget] ++ Samples.twice_two) 2 1
           Samples.widget Samples.gadget H).
Defined.

End Composition.

(** ** What every run keeps *)

Section RunInvariants.
Import Registry Trace Counting.

Implicit Types (items_db l : list Item) (item x : Item).
Implicit Types (item_id : Z) (fields : ItemCreate).
Implicit Types (rqs : list request).

Lemma creations_cons rq rqs :
  creations (rq :: rqs)
  = ((if is_create rq then 1 else 0) + creations rqs)%nat.
Proof.
  unfold creations. destruct rq; simpl;
    by rewrite ?filter_cons_True, ?filter_cons_False by done.
Qed.

(** A delete either raises and leaves the list, or removes one item of
    the list. *)
Lemma delete_item_cases items_db item_id :
  delete_item items_db item_id = (items_db, Raise NotFound) ∨
  ∃ l1 old l2,
    items_db = l1 ++ old :: l2 ∧ id old = item_id ∧
    delete_item items_db item_id
    = (l1 ++ l2, Ok (deleted_message item_id)).
Proof.
  destruct (first_match items_db item_id)
    as [Hnone|(l1 & old & l2 & -> & Hl1 & Hid)].
  - left. by apply delete_item_lacks.
  - right. exists l1, old, l2. repeat split; [done|].
    by apply delete_item_split.
Qed.

(** An update either raises and leaves the list, or overwrites one item
    of the list by an item of the same id. *)
Lemma update_item_cases items_db item_id fields :
  update_item items_db item_id fields = (items_db, Raise NotFound) ∨
  ∃ l1 old l2,
    items_db = l1 ++ old :: l2 ∧ id old = item_id ∧
    update_item items_db item_id fields
    = (l1 ++ Item_of item_id fields :: l2, Ok (Item_of item_id fields)).
Proof.
  destruct (first_match items_db item_id)
    as [Hnone|(l1 & old & l2 & -> & Hl1 & Hid)].
  - left. by apply update_item_lacks.
  - right. exists l1, old, l2. repeat split; [done|].
    by apply update_item_split.
Qed.

(** X8.  In every run, from any list, the length of the list at the
    end plus the number of deletes that succeeded is the length at the
    start plus the number of creations: updates and failed requests do
    not change the length. *)
Theorem serve_length_balance items_db rqs :
  (length (serve items_db rqs).1 + deletions (serve items_db rqs).2
   = length items_db + creations rqs)%nat.
Proof.
  revert items_db. induction rqs as [|rq rqs IH]; intros items_db.
  - simpl. unfold creations. simpl. lia.
  - rewrite serve_cons, creations_cons. simpl.
    destruct rq as [fields|item_id fields|item_id]; simpl.
    + specialize (IH (items_db ++ [Item_of (Z.of_nat (length items_db) + 1)
                                     fields])).
      rewrite length_app in IH. simpl in IH. lia.
    + destruct (update_item items_db item_id fields) as [db r] eqn:Hupd.
      simpl. rewrite IH.
      replace db with (update_item items_db item_id fields).1
        by by rewrite Hupd.
      by rewrite update_item_length.
    + destruct (delete_item_cases items_db item_id)
        as [Hdel|(l1 & old & l2 & -> & _ & Hdel)]; rewrite Hdel; simpl.
      * apply IH.
      * specialize (IH (l1 ++ l2)). rewrite !length_app in *. simpl. lia.
Qed.

Lemma ids_within_mono bound bound' items_db :
  (bound ≤ bound')%nat → ids_within bound items_db →
  ids_within bound' items_db.
Proof.
  intros Hle Hids. eapply Forall_impl; [exact Hids|].
  intros item. simpl. lia.
Qed.

Lemma serve_ids_within bound items_db rqs :
  ids_within bound items_db → (length items_db ≤ bound)%nat →
  ids_within (bound + creations rqs) (serve items_db rqs).1 ∧
  (length (serve items_db rqs).1 ≤ bound + creations rqs)%nat.
Proof.
  revert bound items_db.
  induction rqs as [|rq rqs IH]; intros bound items_db Hids Hlen.
  - simpl. unfold creations. simpl. rewrite Nat.add_0_r. done.
  - rewrite serve_cons, creations_cons. simpl.
    destruct rq as [fields|item_id fields|item_id]; simpl.
    + rewrite <- Nat.add_succ_comm. apply IH.
      * apply Forall_app. split.
        { by apply (ids_within_mono bound); [lia|]. }
        apply Forall_singleton. simpl. lia.
      * rewrite length_app. simpl. lia.
    + destruct (update_item_cases items_db item_id fields)
        as [Hupd|(l1 & old & l2 & -> & Hold & Hupd)]; rewrite Hupd; simpl.
      * by apply IH.
      * apply IH.
        -- unfold ids_within in *.
           rewrite Forall_app, Forall_cons in *.
           destruct Hids as (H1 & Hx & H2). repeat split; try done.
           ++ simpl. lia.
           ++ simpl. lia.
        -- by rewrite length_app in *.
    + destruct (delete_item_cases items_db item_id)
        as [Hdel|(l1 & old & l2 & -> & _ & Hdel)]; rewrite Hdel; simpl.
      * by apply IH.
      * apply IH.
        -- unfold ids_within in *.
           rewrite Forall_app, Forall_cons in Hids.
           destruct Hids as (H1 & _ & H2). by apply Forall_app.
        -- rewrite !length_app in *. simpl in Hlen. lia.
Qed.

(** X9.  In whatever list a run from the empty list leaves, every id is
    at least one and at most the number of creations of the run; no
    update or delete, whatever id it names, brings in another id. *)
Theorem reachable_ids_bounded rqs item :
  item ∈ (serve [] rqs).1 →
  1 ≤ id item ≤ Z.of_nat (creations rqs).
Proof.
  intros Hin.
  destruct (serve_ids_within 0 [] rqs) as [Hids _]; [constructor | done |].
  unfold ids_within in Hids. rewrite Forall_forall in Hids.
  by apply Hids.
Qed.

Lemma reachable_ids_bounded_witness :
  Item_of 2 Samples.widget2 ∈ (serve [] Samples.delete_then_create).1 ∧
  1 ≤ id (Item_of 2 Samples.widget2)
    ≤ Z.of_nat (creations Samples.delete_then_create).
Proof.
  assert (H : Item_of 2 Samples.widget2
              ∈ (serve [] Samples.delete_then_create).1).
  { apply elem_of_cons. right. apply elem_of_cons. left. reflexivity. }
  split; [exact H|].
  exact (reachable_ids_bounded Samples.delete_then_create
           (Item_of 2 Samples.widget2) H).
Defined.

(** X10.  After a run of creations and updates from the empty list (no
    delete), the ids in the list are 1, 2, ..., n in this order, n the
    number of creations; so no two items share an id, and the item of
    id k is at position k - 1. *)
Theorem ids_without_deletes rqs :
  no_deletes rqs = true →
  id <$> (serve [] rqs).1 = seqZ 1 (Z.of_nat (creations rqs)) ∧
  NoDup (id <$> (serve [] rqs).1).
Proof.
  intros Hnd.
  assert (Hids : id <$> (serve [] rqs).1
                 = seqZ 1 (Z.of_nat (creations rqs))).
  { rewrite serve_ids by done. by rewrite serve_length by done. }
  split; [done|]. rewrite Hids. apply NoDup_seqZ.
Qed.

Lemma ids_without_deletes_witness :
  no_deletes Samples.no_delete_run = true ∧
  id <$> (serve [] Samples.no_delete_run).1
  = seqZ 1 (Z.of_nat (creations Samples.no_delete_run)) ∧
  NoDup (id <$> (serve [] Samples.no_delete_run).1).
Proof.
  split; [reflexivity|].
  exact (ids_without_deletes Samples.no_delete_run eq_refl).
Defined.

End RunInvariants.

(** ** Requests with credentials *)

Section Guarded.
Import Registry Trace Auth Api.

Implicit Types (settings : Config.Settings) (rq : Api.request).
Implicit Types (creds : option HTTPAuthorizationCredentials).
Implicit Types (items_db db : list Item) (calls : list call).

Lemma serve_calls_cons settings items_db creds rq calls :
  serve_calls settings items_db ((creds, rq) :: calls)
  = ((serve_calls settings (respond settings creds items_db rq).1 calls).1,
     (respond settings creds items_db rq).2
       :: (serve_calls settings (respond settings creds items_db rq).1
             calls).2).
Proof.
  simpl. destruct (respond settings creds items_db rq) as [db r]. simpl.
  by destruct (serve_calls settings db calls).
Qed.

Lemma get_api_key_raises (auth : Auth.Settings) creds e :
  get_api_key auth creds = Raise e → e = APIKeyError.
Proof.
  unfold get_api_key.
  destruct (negb (ENABLE_API_KEY_AUTH auth) || negb (truthy (API_KEY auth)));
    [done|].
  destruct creds as [c|]; [|by intros [= <-]].
  destruct (negb (bool_decide (Some (credentials c) = API_KEY auth)));
    [by intros [= <-] | done].
Qed.

Lemma get_api_key_off (auth : Auth.Settings) creds :
  guard_off auth → get_api_key auth creds = Ok "bypass".
Proof.
  intros Hoff. apply guard_off_test in Hoff.
  unfold get_api_key. by rewrite Hoff.
Qed.




Lemma respond_rejected settings creds items_db rq :
  admitted settings (creds, rq) = false →
  respond settings creds items_db rq = (items_db, Raise APIKeyError).
Proof.
  unfold admitted, respond. simpl. intros Hrej.
  apply orb_false_iff in Hrej as [Hkey Hraise].
  apply negb_false_iff in Hkey. rewrite Hkey.
  destruct (require_api_key (Config.security settings) creds) as [t|e] eqn:Hk;
    [done|].
  by rewrite (get_api_key_raises _ _ _ Hk).
Qed.



(** X12.  With authentication switched off, or with no secret set,
    every request is answered by its handler, whatever it presents. *)
Theorem guard_off_answers_all settings creds items_db rq :
  guard_off (Config.security settings) →
  respond settings creds items_db rq = endpoint settings items_db rq.
Proof.
  intros Hoff. unfold respond, require_api_key.
  rewrite get_api_key_off by done. by destruct (needs_key rq).
Qed.



(** X15.  The calls that the key check turns away leave no trace in
    the list: a run of calls ends with the list that the run of its
    admitted calls alone ends with. *)
Theorem rejected_calls_invisible settings items_db calls :
  (serve_calls settings items_db calls).1
  = (serve_calls settings items_db
       (filter (λ c, admitted settings c = true) calls)).1.
Proof.
  revert items_db. induction calls as [|[creds rq] calls IH]; intros items_db.
  - done.
  - rewrite serve_calls_cons. simpl.
    destruct (admitted settings (creds, rq)) eqn:Hadm.
    + rewrite filter_cons_True by done. rewrite serve_calls_cons. simpl.
      apply IH.
    + rewrite filter_cons_False by (by rewrite Hadm).
      rewrite respond_rejected by done. simpl. apply IH.
Qed.

End Guarded.

(** ** Sample requests with credentials *)

Section GuardedSamples.
Import Registry Trace Auth Api ApiSamples.


Lemma defaults_are_off : guard_off (Config.security Config.defaults).
Proof. right. left. reflexivity. Qed.


Lemma guard_off_answers_all_witness :
  guard_off (Config.security Config.defaults) ∧
  respond Config.defaults None [] (CreateItem Samples.widget)
  = endpoint Config.defaults [] (CreateItem Samples.widget).
Proof.
  split; [exact defaults_are_off|].
  exact (guard_off_answers_all Config.defaults None []
           (CreateItem Samples.widget) defaults_are_off).
Defined.



(** The run of [mixed_calls]: the two calls without the key get the 401
    and the list is that of the create and the update. *)
Example serve_mixed_calls :
  serve_calls locked [] mixed_calls
  = ([Item_of 1 Samples.widget2],
     [Ok (Json_item (Item_of 1 Samples.widget));
      Raise APIKeyError;
      Raise APIKeyError;
      Ok (Json_item (Item_of 1 Samples.widget2))]).
Proof. reflexivity. Qed.

End GuardedSamples.

(** ** The paths *)

Section Paths.
Import Api.

Implicit Types (settings : Config.Settings) (p a b : string).








End Paths.
